(** * FundingRoundFactory: round lifecycle and finalization state machine

    A shallow embedding of [contracts/FundingRoundFactory.sol] and the
    properties of its round ledger and of [transferMatchingFunds].

    Conventions.
    - [address] and [uint256] are [Z]; [address(0)] is [0]; the only
      arithmetic of the contract, [block.number + duration], wraps modulo
      [2^256] as Solidity 0.6 does.
    - A contract function is a computation in the monad [M]: it reads and
      writes the contract state, appends to the event log and may revert.
      A revert discards the tentative state and log of the whole call.
    - [console.log] calls have no effect on state or log and are left out. *)

From Stdlib Require Import ZArith String List Bool Lia.
From stdpp Require Import base option gmap.
Import ListNotations.

Open Scope Z_scope.

(** ** Values *)

Abbreviation address := Z (only parsing).
Abbreviation uint256 := Z (only parsing).

Definition address0 : address := 0.

Definition uint256_modulus : Z := 2 ^ 256.

(** Solidity 0.6 [+] on [uint256]: no overflow check. *)
Definition uint256_add (a b : uint256) : uint256 := (a + b) mod uint256_modulus.

(** ** Events of the contract (and of Ownable) *)

Inductive Event : Type :=
| NewToken                                  (* argument of the emit is not in scope in the source *)
| NewRound (_round : address)
| RoundFinalized0
| CoordinatorTransferred (_newCoordinator : address)
| WitnessTransferred (_newWitness : address)
| NewRoundDuration (_duration : uint256)
| MaciSet (_maci : address)
| NewMaciRequired
| RoundFinalized (_round : address)
| OwnershipTransferred (previousOwner newOwner : address).

(** ** Round instances

    [new FundingRound(this, token)]: the factory only keeps the handle; the
    chain keeps the instance with its constructor arguments. *)

Record FundingRound : Type := mkFundingRound {
  fr_address : address;
  fr_factory : address;
  fr_token : address
}.

(** ** Contract state *)

Record State : Type := mkState {
  owner : address;                    (* Ownable._owner *)
  coordinator : address;
  maci : address;
  token : address;
  witness : address;
  currentRound : address;
  previousRound : address;
  newMaci : bool;
  previousRoundValid : bool;
  newCoordinatorSet : bool;
  duration : uint256;
  roundEndBlockNumber : uint256;
  maciByRound : gmap Z Z;
  created : list FundingRound         (* contracts created by the factory, oldest first *)
}.

(** Storage writes, one per assigned variable. *)

Definition set_owner (v : address) (s : State) : State :=
  mkState v (coordinator s) (maci s) (token s) (witness s) (currentRound s)
    (previousRound s) (newMaci s) (previousRoundValid s) (newCoordinatorSet s)
    (duration s) (roundEndBlockNumber s) (maciByRound s) (created s).

Definition set_coordinator (v : address) (s : State) : State :=
  mkState (owner s) v (maci s) (token s) (witness s) (currentRound s)
    (previousRound s) (newMaci s) (previousRoundValid s) (newCoordinatorSet s)
    (duration s) (roundEndBlockNumber s) (maciByRound s) (created s).

Definition set_maci (v : address) (s : State) : State :=
  mkState (owner s) (coordinator s) v (token s) (witness s) (currentRound s)
    (previousRound s) (newMaci s) (previousRoundValid s) (newCoordinatorSet s)
    (duration s) (roundEndBlockNumber s) (maciByRound s) (created s).

Definition set_token (v : address) (s : State) : State :=
  mkState (owner s) (coordinator s) (maci s) v (witness s) (currentRound s)
    (previousRound s) (newMaci s) (previousRoundValid s) (newCoordinatorSet s)
    (duration s) (roundEndBlockNumber s) (maciByRound s) (created s).

Definition set_witness (v : address) (s : State) : State :=
  mkState (owner s) (coordinator s) (maci s) (token s) v (currentRound s)
    (previousRound s) (newMaci s) (previousRoundValid s) (newCoordinatorSet s)
    (duration s) (roundEndBlockNumber s) (maciByRound s) (created s).

Definition set_currentRound (v : address) (s : State) : State :=
  mkState (owner s) (coordinator s) (maci s) (token s) (witness s) v
    (previousRound s) (newMaci s) (previousRoundValid s) (newCoordinatorSet s)
    (duration s) (roundEndBlockNumber s) (maciByRound s) (created s).

Definition set_previousRound (v : address) (s : State) : State :=
  mkState (owner s) (coordinator s) (maci s) (token s) (witness s) (currentRound s)
    v (newMaci s) (previousRoundValid s) (newCoordinatorSet s)
    (duration s) (roundEndBlockNumber s) (maciByRound s) (created s).

Definition set_newMaci (v : bool) (s : State) : State :=
  mkState (owner s) (coordinator s) (maci s) (token s) (witness s) (currentRound s)
    (previousRound s) v (previousRoundValid s) (newCoordinatorSet s)
    (duration s) (roundEndBlockNumber s) (maciByRound s) (created s).

Definition set_previousRoundValid (v : bool) (s : State) : State :=
  mkState (owner s) (coordinator s) (maci s) (token s) (witness s) (currentRound s)
    (previousRound s) (newMaci s) v (newCoordinatorSet s)
    (duration s) (roundEndBlockNumber s) (maciByRound s) (created s).

Definition set_newCoordinatorSet (v : bool) (s : State) : State :=
  mkState (owner s) (coordinator s) (maci s) (token s) (witness s) (currentRound s)
    (previousRound s) (newMaci s) (previousRoundValid s) v
    (duration s) (roundEndBlockNumber s) (maciByRound s) (created s).

Definition set_duration (v : uint256) (s : State) : State :=
  mkState (owner s) (coordinator s) (maci s) (token s) (witness s) (currentRound s)
    (previousRound s) (newMaci s) (previousRoundValid s) (newCoordinatorSet s)
    v (roundEndBlockNumber s) (maciByRound s) (created s).

Definition set_roundEndBlockNumber (v : uint256) (s : State) : State :=
  mkState (owner s) (coordinator s) (maci s) (token s) (witness s) (currentRound s)
    (previousRound s) (newMaci s) (previousRoundValid s) (newCoordinatorSet s)
    (duration s) v (maciByRound s) (created s).

Definition add_created (r : FundingRound) (s : State) : State :=
  mkState (owner s) (coordinator s) (maci s) (token s) (witness s) (currentRound s)
    (previousRound s) (newMaci s) (previousRoundValid s) (newCoordinatorSet s)
    (duration s) (roundEndBlockNumber s) (maciByRound s) (created s ++ [r]).

(** Storage before the constructor body runs: every variable zero. *)
Definition zero_state : State :=
  mkState 0 0 0 0 0 0 0 false false false 0 0 ∅ [].

(** ** Call environment *)

Record Env : Type := mkEnv {
  this : address;           (* address of the factory *)
  msg_sender : address;
  block_number : uint256
}.

(** ** The contract monad: state, event log, revert *)

Inductive Result (A : Type) : Type :=
| Ok (a : A)
| Revert (reason : string).

Arguments Ok {A} a.
Arguments Revert {A} reason.

Definition M (A : Type) : Type := State -> Result (A * State * list Event).

Definition ret {A : Type} (a : A) : M A := fun s => Ok (a, s, []).

Definition bind {A B : Type} (m : M A) (k : A -> M B) : M B :=
  fun s =>
    match m s with
    | Revert r => Revert r
    | Ok (a, s1, l1) =>
        match k a s1 with
        | Revert r => Revert r
        | Ok (b, s2, l2) => Ok (b, s2, l1 ++ l2)
        end
    end.

Definition read {A : Type} (f : State -> A) : M A := fun s => Ok (f s, s, []).
Definition write (f : State -> State) : M unit := fun s => Ok (tt, f s, []).
Definition emit (ev : Event) : M unit := fun s => Ok (tt, s, [ev]).
Definition revert {A : Type} (reason : string) : M A := fun _ => Revert reason.
Definition require (b : bool) (reason : string) : M unit :=
  if b then ret tt else revert reason.

Declare Scope sol_scope.
Delimit Scope sol_scope with sol.
Notation "'let*' x ':=' m 'in' k" := (bind m (fun x => k))
  (at level 10, x name, m at level 100, k at level 200) : sol_scope.
Notation "m ';;' k" := (bind m (fun _ => k))
  (at level 100, k at level 200, right associativity) : sol_scope.

(** ** Revert reasons *)

Definition InvalidEndRoundConditions : string := "Invalid end round conditions".
Definition NoCoordinator : string := "No coordinator".
Definition InvalidTransferConditions : string :=
  "Invalid conditions for transfer of matching funds".
Definition NotCoordinator : string := "Sender is not the coordinator".
Definition NotWitness : string := "Sender is not the witness".
Definition NotOwner : string := "Ownable: caller is not the owner".
Definition NewOwnerIsZero : string := "Ownable: new owner is the zero address".

(** ** The contract *)

Section Contract.

(** Address the chain gives to the [n]-th contract created by [creator]
    (the EVM derives it from the creator and its creation count). *)
Variable create_address : address -> Z -> address.

Open Scope sol_scope.

(** [modifier onlyOwner] of Ownable. *)
Definition onlyOwner (e : Env) : M unit :=
  let* o := read owner in
  require (msg_sender e =? o) NotOwner.

Definition onlyCoordinator (e : Env) : M unit :=
  let* c := read coordinator in
  require (msg_sender e =? c) NotCoordinator.

Definition onlyWitness (e : Env) : M unit :=
  let* w := read witness in
  require (msg_sender e =? w) NotWitness.

(** Views. *)
Definition getCurrentRound (s : State) : address := currentRound s.
Definition getPreviousRound (s : State) : address := previousRound s.
Definition getMaci (round : address) (s : State) : address :=
  default 0 (maciByRound s !! round).

(** [new FundingRound(this, token)]. *)
Definition deployNewRound (e : Env) : M address :=
  let* t := read token in
  let* n := read (fun s => Z.of_nat (length (created s))) in
  let fr := mkFundingRound (create_address (this e) (n + 1)) (this e) t in
  write (add_created fr) ;;
  ret (fr_address fr).

Definition endRound (e : Env) : M unit :=
  let* deadline := read roundEndBlockNumber in
  let* flag := read newCoordinatorSet in
  let* c := read coordinator in
  if (block_number e >=? deadline) || Bool.eqb flag true || (c =? address0)
  then
    let* nextRound := deployNewRound e in
    let* cur := read currentRound in
    write (set_previousRound cur) ;;
    write (set_currentRound nextRound) ;;
    let* cur' := read currentRound in
    emit (NewRound cur') ;;
    let* d := read duration in
    write (set_roundEndBlockNumber (uint256_add (block_number e) d))
  else
    revert InvalidEndRoundConditions.

Definition setMACI (e : Env) (_maci : address) : M unit :=
  onlyWitness e ;;
  write (set_maci _maci) ;;
  write (set_newMaci true) ;;
  emit (MaciSet _maci).

Definition transferMatchingFunds (e : Env) : M bool :=
  onlyOwner e ;;
  let* c := read coordinator in
  require (negb (c =? address0)) NoCoordinator ;;
  let* flag := read newCoordinatorSet in
  if Bool.eqb flag true then
    write (set_newCoordinatorSet false) ;;
    write (set_newMaci false) ;;
    write (set_previousRoundValid false) ;;
    emit NewMaciRequired ;;
    ret false
  else
    let* m := read newMaci in
    let* v := read previousRoundValid in
    if m && v then
      let* prev := read previousRound in
      emit (RoundFinalized prev) ;;
      write (set_newMaci false) ;;
      ret true
    else
      revert InvalidTransferConditions.

(** The source emits [NewToken(_coordinator)], a name that is not in scope
    there; the event is kept without its argument. *)
Definition setToken (e : Env) (_token : address) : M unit :=
  onlyOwner e ;;
  write (set_token _token) ;;
  emit NewToken.

Definition setCoordinator (e : Env) (_coordinator : address) : M unit :=
  onlyOwner e ;;
  write (set_coordinator _coordinator) ;;
  write (set_newCoordinatorSet true) ;;
  emit (CoordinatorTransferred _coordinator) ;;
  endRound e.

Definition setWitness (e : Env) (_witness : address) : M unit :=
  onlyOwner e ;;
  write (set_witness _witness) ;;
  emit (WitnessTransferred _witness).

Definition setRoundDuration (e : Env) (_duration : uint256) : M unit :=
  onlyOwner e ;;
  write (set_duration _duration) ;;
  emit (NewRoundDuration _duration).

Definition coordinatorQuit (e : Env) : M unit :=
  onlyCoordinator e ;;
  write (set_coordinator address0) ;;
  let* c := read coordinator in
  emit (CoordinatorTransferred c) ;;
  endRound e.

Definition witnessQuit (e : Env) : M unit :=
  onlyWitness e ;;
  write (set_witness address0) ;;
  let* w := read witness in
  emit (WitnessTransferred w) ;;
  write (set_newMaci false).

(** Ownable (OpenZeppelin), inherited by the factory. *)
Definition Ownable_constructor (e : Env) : M unit :=
  write (set_owner (msg_sender e)) ;;
  emit (OwnershipTransferred address0 (msg_sender e)).

Definition renounceOwnership (e : Env) : M unit :=
  onlyOwner e ;;
  let* o := read owner in
  emit (OwnershipTransferred o address0) ;;
  write (set_owner address0).

Definition transferOwnership (e : Env) (newOwner : address) : M unit :=
  onlyOwner e ;;
  require (negb (newOwner =? address0)) NewOwnerIsZero ;;
  let* o := read owner in
  emit (OwnershipTransferred o newOwner) ;;
  write (set_owner newOwner).

(** [constructor(address _firstCoordinator)], after the base constructor. *)
Definition constructor (e : Env) (_firstCoordinator : address) : M unit :=
  Ownable_constructor e ;;
  setCoordinator e _firstCoordinator ;;
  endRound e.

(** Deployment of the factory: the constructor on zeroed storage. *)
Definition deploy (e : Env) (_firstCoordinator : address)
  : Result (unit * State * list Event) :=
  constructor e _firstCoordinator zero_state.

(** ** Transactions *)

Inductive Op : Type :=
| OpEndRound
| OpSetMACI (_maci : address)
| OpTransferMatchingFunds
| OpSetToken (_token : address)
| OpSetCoordinator (_coordinator : address)
| OpSetWitness (_witness : address)
| OpSetRoundDuration (_duration : uint256)
| OpCoordinatorQuit
| OpWitnessQuit
| OpRenounceOwnership
| OpTransferOwnership (newOwner : address).

Inductive RetVal : Type :=
| RetUnit
| RetBool (b : bool).

Definition returning {A : Type} (f : A -> RetVal) (m : M A) : M RetVal :=
  let* a := m in ret (f a).

Definition dispatch (e : Env) (op : Op) : M RetVal :=
  match op with
  | OpEndRound => returning (fun _ => RetUnit) (endRound e)
  | OpSetMACI a => returning (fun _ => RetUnit) (setMACI e a)
  | OpTransferMatchingFunds => returning RetBool (transferMatchingFunds e)
  | OpSetToken a => returning (fun _ => RetUnit) (setToken e a)
  | OpSetCoordinator a => returning (fun _ => RetUnit) (setCoordinator e a)
  | OpSetWitness a => returning (fun _ => RetUnit) (setWitness e a)
  | OpSetRoundDuration d => returning (fun _ => RetUnit) (setRoundDuration e d)
  | OpCoordinatorQuit => returning (fun _ => RetUnit) (coordinatorQuit e)
  | OpWitnessQuit => returning (fun _ => RetUnit) (witnessQuit e)
  | OpRenounceOwnership => returning (fun _ => RetUnit) (renounceOwnership e)
  | OpTransferOwnership a => returning (fun _ => RetUnit) (transferOwnership e a)
  end.

(** Outcome of a transaction as seen from outside. *)
Inductive Outcome : Type :=
| Success (r : RetVal) (log : list Event)
| Failure (reason : string).

(** A transaction: a reverted call leaves the state as it was. *)
Definition call (e : Env) (op : Op) (s : State) : Outcome * State :=
  match dispatch e op s with
  | Ok (r, s', log) => (Success r log, s')
  | Revert reason => (Failure reason, s)
  end.

(** States visited by a sequence of transactions, the first one included. *)
Fixpoint run (txs : list (Env * Op)) (s : State) : list State :=
  match txs with
  | [] => [s]
  | (e, op) :: txs' => s :: run txs' (snd (call e op s))
  end.

(** ** Round transitions, as seen from a state *)

(** The instance the next [deployNewRound] creates in state [s]. *)
Definition next_instance (e : Env) (s : State) : FundingRound :=
  mkFundingRound (create_address (this e) (Z.of_nat (length (created s)) + 1))
    (this e) (token s).

(** The state a passing [endRound] leaves. *)
Definition round_started (e : Env) (s : State) : State :=
  set_roundEndBlockNumber (uint256_add (block_number e) (duration s))
    (set_currentRound (fr_address (next_instance e s))
       (set_previousRound (currentRound s)
          (add_created (next_instance e s) s))).

End Contract.

Arguments uint256_add : simpl never.

(** ** Frames and the ledger invariant *)

(** Everything but the three finalization flags is the same in both states. *)
Definition same_but_flags (s s' : State) : Prop :=
  owner s' = owner s /\ coordinator s' = coordinator s /\ maci s' = maci s /\
  token s' = token s /\ witness s' = witness s /\
  currentRound s' = currentRound s /\ previousRound s' = previousRound s /\
  duration s' = duration s /\ roundEndBlockNumber s' = roundEndBlockNumber s /\
  maciByRound s' = maciByRound s /\ created s' = created s.

(** Everything but the round ledger (handles, deadline, created instances)
    is the same in both states. *)
Definition same_but_rounds (s s' : State) : Prop :=
  owner s' = owner s /\ coordinator s' = coordinator s /\ maci s' = maci s /\
  token s' = token s /\ witness s' = witness s /\ newMaci s' = newMaci s /\
  previousRoundValid s' = previousRoundValid s /\
  newCoordinatorSet s' = newCoordinatorSet s /\
  duration s' = duration s /\ maciByRound s' = maciByRound s.

(** Everything but the witness is the same in both states. *)
Definition same_but_witness (s s' : State) : Prop :=
  owner s' = owner s /\ coordinator s' = coordinator s /\ maci s' = maci s /\
  token s' = token s /\
  currentRound s' = currentRound s /\ previousRound s' = previousRound s /\
  newMaci s' = newMaci s /\ previousRoundValid s' = previousRoundValid s /\
  newCoordinatorSet s' = newCoordinatorSet s /\
  duration s' = duration s /\ roundEndBlockNumber s' = roundEndBlockNumber s /\
  maciByRound s' = maciByRound s /\ created s' = created s.

(** The ledger always shows the last two instances created. *)
Definition ledger_tracks_created (s : State) : Prop :=
  match rev (created s) with
  | [] => currentRound s = address0 /\ previousRound s = address0
  | [r] => currentRound s = fr_address r /\ previousRound s = address0
  | r :: r' :: _ => currentRound s = fr_address r /\ previousRound s = fr_address r'
  end.

(** The two handles of the ledger are the last two instances created. *)
Definition latest_two (s : State) : Prop :=
  exists l r1 r2,
    created s = l ++ [r1; r2] /\
    previousRound s = fr_address r1 /\ currentRound s = fr_address r2.

(** The [i]-th instance created (from 0) was created by factory [a] and sits
    at the address the chain derives from [a] and the count [i + 1]. *)
Definition addressed_by_count (create_address : address -> Z -> address)
  (a : address) (s : State) : Prop :=
  forall (i : nat) (r : FundingRound),
    created s !! i = Some r ->
    fr_address r = create_address a (Z.of_nat i + 1) /\ fr_factory r = a.

(** ** Sample inputs, used to run the contract on concrete data *)

Definition sample_create_address (creator n : Z) : address :=
  Z.abs creator + Z.abs n + 1.

(** The factory sits at address 1000; 7 is the owner, 9 the witness, 3 a
    stranger. *)
Definition owner_at (blk : uint256) : Env := mkEnv 1000 7 blk.
Definition witness_at (blk : uint256) : Env := mkEnv 1000 9 blk.
Definition stranger_at (blk : uint256) : Env := mkEnv 1000 3 blk.

(** A state in the middle of a round: coordinator 5, witness 9, rounds 1002
    and 1003 deployed, deadline at block 110. *)
Definition sample_state (attested valid changed : bool) : State :=
  mkState 7 5 0 0 9 1003 1002 attested valid changed 100 110 ∅
    [mkFundingRound 1002 1000 0; mkFundingRound 1003 1000 0].

(** The factory deployed at block 10 by the owner, with coordinator 5. *)
Definition deployed_state : State :=
  match deploy sample_create_address (owner_at 10) 5 with
  | Ok (_, s, _) => s
  | Revert _ => zero_state
  end.

(** The one transaction of the sample run: the owner names witness 9 at
    block 11; and the state it leaves. *)
Definition sample_txs : list (Env * Op) := [(owner_at 11, OpSetWitness 9)].

Definition witness_named : State :=
  snd (call sample_create_address (owner_at 11) (OpSetWitness 9) deployed_state).

(** ** Proof automation *)

(** Symbolic execution: unfold the contract functions and the monad, then
    split on the conditions of the code, outermost first. *)
Ltac sol_unfold :=
  cbv beta iota delta
    [constructor deploy Ownable_constructor setCoordinator coordinatorQuit
     witnessQuit setWitness setMACI setToken setRoundDuration
     transferMatchingFunds renounceOwnership transferOwnership endRound
     deployNewRound onlyOwner onlyCoordinator onlyWitness returning dispatch
     call require bind read write emit revert ret Bool.eqb] in *.

Ltac cond_atom c :=
  lazymatch c with
  | negb ?x => cond_atom x
  | andb ?x _ => cond_atom x
  | orb ?x _ => cond_atom x
  | (if ?x then _ else _) => cond_atom x
  | _ => constr:(c)
  end.

Ltac sol_case :=
  match goal with
  | |- context [if ?c then _ else _] =>
      let a := cond_atom c in
      destruct a eqn:?; cbn [negb andb orb app]; cbv beta iota
  end.

Ltac sol_run := sol_unfold; cbn [app]; repeat sol_case; try reflexivity.

(** ** Properties *)

Section Properties.

Variable create_address : address -> Z -> address.

(** *** What each function computes, as one case analysis on the state *)

Lemma transferMatchingFunds_eq (e : Env) (s : State) :
  transferMatchingFunds e s =
    if msg_sender e =? owner s then
      if coordinator s =? address0 then Revert NoCoordinator
      else if newCoordinatorSet s then
        Ok (false,
            set_previousRoundValid false
              (set_newMaci false (set_newCoordinatorSet false s)),
            [NewMaciRequired])
      else if newMaci s && previousRoundValid s then
        Ok (true, set_newMaci false s, [RoundFinalized (previousRound s)])
      else Revert InvalidTransferConditions
    else Revert NotOwner.
Proof. sol_run. Qed.

Lemma endRound_eq (e : Env) (s : State) :
  endRound create_address e s =
    if (block_number e >=? roundEndBlockNumber s) || newCoordinatorSet s
       || (coordinator s =? address0)
    then Ok (tt, round_started create_address e s, [NewRound (fr_address (next_instance create_address e s))])
    else Revert InvalidEndRoundConditions.
Proof. sol_run. Qed.

Lemma setMACI_eq (e : Env) (_maci : address) (s : State) :
  setMACI e _maci s =
    if msg_sender e =? witness s
    then Ok (tt, set_newMaci true (set_maci _maci s), [MaciSet _maci])
    else Revert NotWitness.
Proof. sol_run. Qed.

Lemma setWitness_eq (e : Env) (_witness : address) (s : State) :
  setWitness e _witness s =
    if msg_sender e =? owner s
    then Ok (tt, set_witness _witness s, [WitnessTransferred _witness])
    else Revert NotOwner.
Proof. sol_run. Qed.

Lemma witnessQuit_eq (e : Env) (s : State) :
  witnessQuit e s =
    if msg_sender e =? witness s
    then Ok (tt, set_newMaci false (set_witness address0 s),
             [WitnessTransferred address0])
    else Revert NotWitness.
Proof. sol_run. Qed.

Lemma setToken_eq (e : Env) (_token : address) (s : State) :
  setToken e _token s =
    if msg_sender e =? owner s
    then Ok (tt, set_token _token s, [NewToken])
    else Revert NotOwner.
Proof. sol_run. Qed.

Lemma setRoundDuration_eq (e : Env) (_duration : uint256) (s : State) :
  setRoundDuration e _duration s =
    if msg_sender e =? owner s
    then Ok (tt, set_duration _duration s, [NewRoundDuration _duration])
    else Revert NotOwner.
Proof. sol_run. Qed.

Lemma renounceOwnership_eq (e : Env) (s : State) :
  renounceOwnership e s =
    if msg_sender e =? owner s
    then Ok (tt, set_owner address0 s, [OwnershipTransferred (owner s) address0])
    else Revert NotOwner.
Proof. sol_run. Qed.

Lemma transferOwnership_eq (e : Env) (newOwner : address) (s : State) :
  transferOwnership e newOwner s =
    if msg_sender e =? owner s then
      if newOwner =? address0 then Revert NewOwnerIsZero
      else Ok (tt, set_owner newOwner s, [OwnershipTransferred (owner s) newOwner])
    else Revert NotOwner.
Proof. sol_run. Qed.

(** [setCoordinator] always passes the test of [endRound]: it has just set
    [newCoordinatorSet]. *)
Lemma setCoordinator_eq (e : Env) (_coordinator : address) (s : State) :
  setCoordinator create_address e _coordinator s =
    if msg_sender e =? owner s
    then
      let s1 := set_newCoordinatorSet true (set_coordinator _coordinator s) in
      Ok (tt, round_started create_address e s1,
          [CoordinatorTransferred _coordinator;
           NewRound (fr_address (next_instance create_address e s1))])
    else Revert NotOwner.
Proof.
  unfold setCoordinator.
  cbv beta iota delta [onlyOwner require bind read write emit revert ret].
  destruct (msg_sender e =? owner s); [| reflexivity].
  cbv beta iota. rewrite endRound_eq. cbn [newCoordinatorSet set_newCoordinatorSet].
  rewrite orb_true_r. reflexivity.
Qed.

(** So does [coordinatorQuit]: it has just zeroed [coordinator]. *)
Lemma coordinatorQuit_eq (e : Env) (s : State) :
  coordinatorQuit create_address e s =
    if msg_sender e =? coordinator s
    then
      let s1 := set_coordinator address0 s in
      Ok (tt, round_started create_address e s1,
          [CoordinatorTransferred address0;
           NewRound (fr_address (next_instance create_address e s1))])
    else Revert NotCoordinator.
Proof.
  unfold coordinatorQuit.
  cbv beta iota delta [onlyCoordinator require bind read write emit revert ret].
  destruct (msg_sender e =? coordinator s); [| reflexivity].
  cbv beta iota. rewrite endRound_eq. cbn [coordinator set_coordinator].
  change (address0 =? address0) with true. rewrite orb_true_r. reflexivity.
Qed.

Lemma deploy_eq (e : Env) (_firstCoordinator : address) :
  deploy create_address e _firstCoordinator =
    let s0 := set_owner (msg_sender e) zero_state in
    let s1 := set_newCoordinatorSet true (set_coordinator _firstCoordinator s0) in
    let s2 := round_started create_address e s1 in
    Ok (tt, round_started create_address e s2,
        [OwnershipTransferred address0 (msg_sender e);
         CoordinatorTransferred _firstCoordinator;
         NewRound (fr_address (next_instance create_address e s1));
         NewRound (fr_address (next_instance create_address e s2))]).
Proof.
  unfold deploy, constructor, Ownable_constructor.
  cbv beta iota delta [bind write emit].
  rewrite setCoordinator_eq.
  cbn [owner set_owner msg_sender]. rewrite Z.eqb_refl.
  cbv beta iota zeta. rewrite endRound_eq.
  cbn [newCoordinatorSet round_started set_roundEndBlockNumber set_currentRound
       set_previousRound add_created set_newCoordinatorSet].
  rewrite orb_true_r. reflexivity.
Qed.

(** A transaction that calls [transferMatchingFunds]. *)
Lemma call_transferMatchingFunds (e : Env) (s : State) :
  call create_address e OpTransferMatchingFunds s =
    match transferMatchingFunds e s with
    | Ok (b, s', log) => (Success (RetBool b) log, s')
    | Revert reason => (Failure reason, s)
    end.
Proof.
  unfold call, dispatch, returning, bind, ret.
  destruct (transferMatchingFunds e s) as [[[b s'] log]|reason]; [|reflexivity].
  now rewrite app_nil_r.
Qed.

Lemma eqb_address0_false (a : address) : a <> address0 -> (a =? address0) = false.
Proof. intros H. now apply Z.eqb_neq. Qed.

Lemma reasons_differ :
  NoCoordinator <> InvalidTransferConditions /\ NotOwner <> NoCoordinator /\
  NotOwner <> InvalidTransferConditions.
Proof. repeat split; discriminate. Qed.

(** *** The finalization state machine *)

(** C1. Called by the owner in a state with a coordinator and
    [newCoordinatorSet] set, [transferMatchingFunds] takes the redo branch
    whatever [newMaci] and [previousRoundValid] are: it returns [false],
    logs [NewMaciRequired] only, clears the three flags and touches nothing
    else (no round is created, no other variable written). *)
Theorem transferMatchingFunds_redo (e : Env) (s : State) :
  msg_sender e = owner s ->
  coordinator s <> address0 ->
  newCoordinatorSet s = true ->
  exists s',
    transferMatchingFunds e s = Ok (false, s', [NewMaciRequired]) /\
    newCoordinatorSet s' = false /\ newMaci s' = false /\
    previousRoundValid s' = false /\
    same_but_flags s s' /\
    call create_address e OpTransferMatchingFunds s
      = (Success (RetBool false) [NewMaciRequired], s').
Proof.
  intros Hown Hco Hflag.
  exists (set_previousRoundValid false (set_newMaci false (set_newCoordinatorSet false s))).
  rewrite call_transferMatchingFunds, transferMatchingFunds_eq.
  rewrite Hown, Z.eqb_refl, (eqb_address0_false _ Hco), Hflag.
  unfold same_but_flags. cbn. repeat split; reflexivity.
Qed.

(** C2. Called by the owner in a state with a coordinator, with
    [newCoordinatorSet] clear and both [newMaci] and [previousRoundValid]
    set, [transferMatchingFunds] takes the finalize branch: it returns
    [true], logs [RoundFinalized(previousRound)], clears [newMaci] and leaves
    [previousRoundValid], [newCoordinatorSet] and everything else alone. *)
Theorem transferMatchingFunds_finalize (e : Env) (s : State) :
  msg_sender e = owner s ->
  coordinator s <> address0 ->
  newCoordinatorSet s = false ->
  newMaci s = true ->
  previousRoundValid s = true ->
  exists s',
    transferMatchingFunds e s = Ok (true, s', [RoundFinalized (previousRound s)]) /\
    newMaci s' = false /\
    previousRoundValid s' = true /\ newCoordinatorSet s' = false /\
    same_but_flags s s' /\
    call create_address e OpTransferMatchingFunds s
      = (Success (RetBool true) [RoundFinalized (previousRound s)], s').
Proof.
  intros Hown Hco Hflag Hm Hv.
  exists (set_newMaci false s).
  rewrite call_transferMatchingFunds, transferMatchingFunds_eq.
  rewrite Hown, Z.eqb_refl, (eqb_address0_false _ Hco), Hflag, Hm, Hv.
  unfold same_but_flags. cbn. repeat split; assumption || reflexivity.
Qed.

(** C3. Called by the owner, [transferMatchingFunds] reverts with
    'No coordinator' exactly when [coordinator] is [address(0)], and with
    'Invalid conditions for transfer of matching funds' exactly when there is
    a coordinator, [newCoordinatorSet] is clear and [newMaci] and
    [previousRoundValid] are not both set; it reverts for no other reason.
    Whoever calls, a reverted call leaves the whole state as it was. *)
Theorem transferMatchingFunds_failures (e : Env) (s : State) :
  (msg_sender e = owner s ->
     (transferMatchingFunds e s = Revert NoCoordinator
        <-> coordinator s = address0) /\
     (transferMatchingFunds e s = Revert InvalidTransferConditions
        <-> coordinator s <> address0 /\ newCoordinatorSet s = false /\
            ~ (newMaci s = true /\ previousRoundValid s = true)) /\
     (forall reason, transferMatchingFunds e s = Revert reason ->
        reason = NoCoordinator \/ reason = InvalidTransferConditions)) /\
  (forall reason,
     fst (call create_address e OpTransferMatchingFunds s) = Failure reason ->
     snd (call create_address e OpTransferMatchingFunds s) = s).
Proof.
  destruct reasons_differ as (Hd1 & Hd2 & Hd3).
  split.
  - intros Hown. rewrite transferMatchingFunds_eq, Hown, Z.eqb_refl.
    destruct (Z.eqb_spec (coordinator s) address0) as [Hc|Hc].
    { repeat split; intros; try tauto; try congruence.
      left. congruence. }
    destruct (newCoordinatorSet s), (newMaci s), (previousRoundValid s); cbn;
      repeat split; intros; try discriminate; try tauto; try congruence;
      try (right; congruence); intuition congruence.
  - intros reason. rewrite call_transferMatchingFunds.
    destruct (transferMatchingFunds e s) as [[[b s'] log]|r]; cbn; [discriminate|reflexivity].
Qed.

(** C9 (amended). After [witnessQuit] by the witness, [newMaci] is clear, so
    an immediate [transferMatchingFunds] by the owner never takes the finalize
    branch, whatever [previousRoundValid] is; it takes the reject branch
    ('Invalid conditions for transfer of matching funds') when there is a
    coordinator and [newCoordinatorSet] is clear. *)
Theorem witnessQuit_then_transfer (e1 e2 : Env) (s : State) :
  msg_sender e1 = witness s ->
  msg_sender e2 = owner s ->
  exists s1,
    witnessQuit e1 s = Ok (tt, s1, [WitnessTransferred address0]) /\
    newMaci s1 = false /\
    previousRoundValid s1 = previousRoundValid s /\
    (forall s2 log, transferMatchingFunds e2 s1 <> Ok (true, s2, log)) /\
    (coordinator s <> address0 -> newCoordinatorSet s = false ->
     transferMatchingFunds e2 s1 = Revert InvalidTransferConditions).
Proof.
  intros Hwit Hown.
  exists (set_newMaci false (set_witness address0 s)).
  rewrite witnessQuit_eq, Hwit, Z.eqb_refl, transferMatchingFunds_eq.
  cbn [owner coordinator newCoordinatorSet newMaci previousRoundValid
       set_newMaci set_witness andb].
  rewrite Hown, Z.eqb_refl.
  repeat split.
  - intros s2 log.
    destruct (coordinator s =? address0); [discriminate|].
    destruct (newCoordinatorSet s); discriminate.
  - intros Hco Hflag. now rewrite (eqb_address0_false _ Hco), Hflag.
Qed.

(** C10. [setWitness] by the owner writes [witness] and nothing else: the
    flags, the round handles, the duration and the deadline keep their values.
    A pending attestation therefore survives the replacement of the witness
    and still authorizes finalization, whereas [witnessQuit] clears it. *)
Theorem setWitness_frame (e : Env) (_witness : address) (s : State) :
  msg_sender e = owner s ->
  exists s',
    setWitness e _witness s = Ok (tt, s', [WitnessTransferred _witness]) /\
    witness s' = _witness /\
    same_but_witness s s' /\
    (forall e2, msg_sender e2 = owner s ->
       coordinator s <> address0 -> newCoordinatorSet s = false ->
       newMaci s = true -> previousRoundValid s = true ->
       exists s2,
         transferMatchingFunds e2 s'
           = Ok (true, s2, [RoundFinalized (previousRound s)])) /\
    (forall e3, msg_sender e3 = witness s ->
       exists s3 log, witnessQuit e3 s = Ok (tt, s3, log) /\ newMaci s3 = false).
Proof.
  intros Hown.
  exists (set_witness _witness s).
  rewrite setWitness_eq, Hown, Z.eqb_refl.
  split; [reflexivity|]. split; [reflexivity|].
  split; [unfold same_but_witness; cbn; repeat split; reflexivity|].
  split.
  - intros e2 Hown2 Hco Hflag Hm Hv.
    exists (set_newMaci false (set_witness _witness s)).
    rewrite transferMatchingFunds_eq.
    cbn [owner coordinator newCoordinatorSet newMaci previousRoundValid
         previousRound set_witness].
    now rewrite Hown2, Z.eqb_refl, (eqb_address0_false _ Hco), Hflag, Hm, Hv.
  - intros e3 Hwit. rewrite witnessQuit_eq, Hwit, Z.eqb_refl.
    eexists; eexists; split; reflexivity.
Qed.

(** *** The round ledger *)

Lemma geb_false_lt (a b : Z) : (a >=? b) = false <-> a < b.
Proof. rewrite Z.geb_leb. apply Z.leb_gt. Qed.

Lemma endRound_test (e : Env) (s : State) :
  (block_number e >=? roundEndBlockNumber s) || newCoordinatorSet s
    || (coordinator s =? address0) = false
  <-> block_number e < roundEndBlockNumber s /\ newCoordinatorSet s = false /\
      coordinator s <> address0.
Proof.
  rewrite !orb_false_iff, geb_false_lt, Z.eqb_neq. tauto.
Qed.

Lemma uint256_add_exact (a b : uint256) :
  0 <= a -> 0 <= b -> a + b < uint256_modulus -> uint256_add a b = a + b.
Proof. intros Ha Hb Hlt. unfold uint256_add. apply Z.mod_small. lia. Qed.

(** C4. [endRound] reverts, with 'Invalid end round conditions', exactly
    when the block number is below the deadline, [newCoordinatorSet] is clear
    and there is a coordinator. In every other state it succeeds: it creates
    a round instance, moves [currentRound] to [previousRound], makes the new
    instance current, logs [NewRound] with its address and sets the deadline
    to [block.number + duration] (the uint256 sum, which is the exact sum when
    that fits in 256 bits); nothing else changes. *)
Theorem endRound_conditions (e : Env) (s : State) :
  let blocked :=
    block_number e < roundEndBlockNumber s /\ newCoordinatorSet s = false /\
    coordinator s <> address0 in
  ((exists reason, endRound create_address e s = Revert reason) <-> blocked) /\
  (blocked -> endRound create_address e s = Revert InvalidEndRoundConditions) /\
  (~ blocked ->
   exists s',
     endRound create_address e s = Ok (tt, s', [NewRound (currentRound s')]) /\
     created s' = created s ++ [next_instance create_address e s] /\
     previousRound s' = currentRound s /\
     currentRound s' = fr_address (next_instance create_address e s) /\
     roundEndBlockNumber s' = uint256_add (block_number e) (duration s) /\
     (0 <= block_number e -> 0 <= duration s ->
      block_number e + duration s < uint256_modulus ->
      roundEndBlockNumber s' = block_number e + duration s) /\
     same_but_rounds s s').
Proof.
  intros blocked. rewrite endRound_eq.
  pose proof (endRound_test e s) as Ht. fold blocked in Ht.
  destruct ((block_number e >=? roundEndBlockNumber s) || newCoordinatorSet s
            || (coordinator s =? address0)).
  - assert (Hnb : ~ blocked) by (intros Hb; apply Ht in Hb; discriminate).
    split; [|split].
    + split; [intros [reason H]; discriminate | intros Hb; contradiction].
    + intros Hb; contradiction.
    + intros _. exists (round_started create_address e s).
      split; [reflexivity|]. split; [reflexivity|]. split; [reflexivity|].
      split; [reflexivity|]. split; [reflexivity|].
      split; [apply uint256_add_exact|].
      unfold same_but_rounds; cbn; repeat split; reflexivity.
  - assert (Hb : blocked) by (now apply Ht).
    split; [|split].
    + split; [intros _; exact Hb | intros _; eexists; reflexivity].
    + reflexivity.
    + intros Hnb; contradiction.
Qed.

(** Case analysis of a transaction: rewrite the called function with its
    equation and split on its conditions. *)
Ltac call_cases :=
  unfold call, dispatch, returning, bind, ret;
  rewrite ?endRound_eq, ?setMACI_eq, ?transferMatchingFunds_eq, ?setToken_eq,
    ?setCoordinator_eq, ?setWitness_eq, ?setRoundDuration_eq,
    ?coordinatorQuit_eq, ?witnessQuit_eq, ?renounceOwnership_eq,
    ?transferOwnership_eq;
  repeat match goal with
         | |- context [if ?c then _ else _] => destruct c
         end;
  cbn.

(** A transaction either leaves the round ledger alone or makes exactly one
    round transition. *)
Lemma call_transition (e : Env) (op : Op) (s : State) :
  let s' := snd (call create_address e op s) in
  (created s' = created s /\ currentRound s' = currentRound s /\
   previousRound s' = previousRound s) \/
  (created s' = created s ++ [next_instance create_address e s] /\
   previousRound s' = currentRound s /\
   currentRound s' = fr_address (next_instance create_address e s)).
Proof.
  destruct op; call_cases; auto.
Qed.

Lemma run_head (txs : list (Env * Op)) (s : State) :
  run create_address txs s !! 0%nat = Some s.
Proof. destruct txs as [|[e op] txs]; reflexivity. Qed.

(** Consecutive states of a run are related by a transaction. *)
Lemma run_step (txs : list (Env * Op)) (s0 : State) (i : nat) (s s' : State) :
  run create_address txs s0 !! i = Some s ->
  run create_address txs s0 !! S i = Some s' ->
  exists e op, s' = snd (call create_address e op s).
Proof.
  revert s0 i. induction txs as [|[e op] txs IH]; intros s0 i Hi HSi.
  - destruct i; discriminate.
  - destruct i as [|j].
    + cbn in Hi, HSi. injection Hi as <-.
      rewrite run_head in HSi. injection HSi as <-. now exists e, op.
    + cbn in Hi, HSi. eapply IH; eassumption.
Qed.

(** C5. A successful [endRound], reached from any function that calls it,
    leaves in [previousRound] the handle [currentRound] held just before and
    in [currentRound] the instance it has created; and along any sequence of
    transactions, whenever a transaction has made a round transition, the
    state after it has [previousRound] equal to [currentRound] of the state
    before it and [currentRound] equal to the one instance created. *)
Theorem round_transition_no_skip :
  (forall e s s' log,
     endRound create_address e s = Ok (tt, s', log) ->
     previousRound s' = currentRound s /\
     created s' = created s ++ [next_instance create_address e s] /\
     currentRound s' = fr_address (next_instance create_address e s)) /\
  (forall (txs : list (Env * Op)) (s0 : State) (i : nat) (s s' : State),
     run create_address txs s0 !! i = Some s ->
     run create_address txs s0 !! S i = Some s' ->
     created s' <> created s ->
     exists fr,
       created s' = created s ++ [fr] /\
       previousRound s' = currentRound s /\
       currentRound s' = fr_address fr).
Proof.
  split.
  - intros e s s' log. rewrite endRound_eq.
    destruct ((block_number e >=? roundEndBlockNumber s) || newCoordinatorSet s
              || (coordinator s =? address0)); [|discriminate].
    intros H. injection H as <- _. repeat split; reflexivity.
  - intros txs s0 i s s' Hi HSi Hnew.
    destruct (run_step txs s0 i s s' Hi HSi) as (e & op & ->).
    destruct (call_transition e op s) as [(Hsame & _ & _)|(Hc & Hp & Hcur)].
    + contradiction.
    + exists (next_instance create_address e s). auto.
Qed.

Lemma round_started_tracks (e : Env) (s : State) :
  ledger_tracks_created s -> ledger_tracks_created (round_started create_address e s).
Proof.
  unfold ledger_tracks_created. cbn. rewrite rev_app_distr. cbn.
  destruct (rev (created s)) as [|r [|r' l]]; cbn; intuition congruence.
Qed.

Lemma call_tracks (e : Env) (op : Op) (s : State) :
  ledger_tracks_created s ->
  ledger_tracks_created (snd (call create_address e op s)).
Proof.
  intros H. destruct op; call_cases; auto using round_started_tracks.
Qed.

(** From deployment on, [currentRound] and [previousRound] are the last two
    instances created, in every state of every run. *)
Lemma run_tracks (e : Env) (_firstCoordinator : address)
  (s0 : State) (log : list Event) (txs : list (Env * Op)) (s : State) :
  deploy create_address e _firstCoordinator = Ok (tt, s0, log) ->
  In s (run create_address txs s0) ->
  ledger_tracks_created s.
Proof.
  rewrite deploy_eq. cbv zeta. intros Hd.
  assert (H0 : ledger_tracks_created s0).
  { injection Hd as <- _. do 2 apply round_started_tracks.
    unfold ledger_tracks_created. cbn. auto. }
  clear Hd. revert s0 H0.
  induction txs as [|[e' op] txs IH]; intros s0 H0 Hin.
  - destruct Hin as [<-|[]]. exact H0.
  - destruct Hin as [<-|Hin]; [exact H0|].
    apply (IH _ (call_tracks e' op s0 H0) Hin).
Qed.

(** C6 (amended). The constructor makes two round transitions, one inside
    [setCoordinator] and one by its own [endRound]: after it two instances
    exist, [currentRound] is the second and [previousRound] the first, and
    both handles are non-null. *)
Theorem constructor_bootstraps_two_rounds (e : Env) (_firstCoordinator : address) :
  (forall creator n, create_address creator n <> address0) ->
  exists s log,
    deploy create_address e _firstCoordinator = Ok (tt, s, log) /\
    created s = [mkFundingRound (create_address (this e) 1) (this e) address0;
                 mkFundingRound (create_address (this e) 2) (this e) address0] /\
    previousRound s = create_address (this e) 1 /\
    currentRound s = create_address (this e) 2 /\
    currentRound s <> address0 /\
    previousRound s <> address0 /\
    coordinator s = _firstCoordinator /\
    owner s = msg_sender e /\
    newCoordinatorSet s = true.
Proof.
  intros Hnz. rewrite deploy_eq. cbv zeta.
  eexists; eexists. split; [reflexivity|].
  cbn. repeat split; try reflexivity; apply Hnz.
Qed.

(** *** Attestation *)

(** No function writes [maciByRound]. *)
Lemma call_maciByRound (e : Env) (op : Op) (s : State) :
  maciByRound (snd (call create_address e op s)) = maciByRound s.
Proof. destruct op; call_cases; reflexivity. Qed.

Lemma run_maciByRound (txs : list (Env * Op)) (s0 s : State) :
  In s (run create_address txs s0) -> maciByRound s = maciByRound s0.
Proof.
  revert s0. induction txs as [|[e op] txs IH]; intros s0 Hin.
  - destruct Hin as [<-|[]]. reflexivity.
  - destruct Hin as [<-|Hin]; [reflexivity|].
    rewrite (IH _ Hin). apply call_maciByRound.
Qed.

(** In every state reached from a deployment, [getMaci] is [address(0)] for
    every round. *)
Lemma getMaci_always_zero (e : Env) (_firstCoordinator : address)
  (s0 : State) (log : list Event) (txs : list (Env * Op)) (s : State) :
  deploy create_address e _firstCoordinator = Ok (tt, s0, log) ->
  In s (run create_address txs s0) ->
  forall round, getMaci round s = address0.
Proof.
  rewrite deploy_eq. cbv zeta. intros Hd Hin round.
  injection Hd as <- _. unfold getMaci.
  rewrite (run_maciByRound _ _ _ Hin). cbn. now rewrite lookup_empty.
Qed.

(** [setMACI] by the witness stores the identifier in [maci] and sets
    [newMaci]; [getMaci] answers as before for every round. *)
Lemma setMACI_effect (e : Env) (_maci : address) (s : State) :
  msg_sender e = witness s ->
  exists s',
    setMACI e _maci s = Ok (tt, s', [MaciSet _maci]) /\
    maci s' = _maci /\ newMaci s' = true /\
    currentRound s' = currentRound s /\
    forall round, getMaci round s' = getMaci round s.
Proof.
  intros Hwit. exists (set_newMaci true (set_maci _maci s)).
  rewrite setMACI_eq, Hwit, Z.eqb_refl. repeat split.
Qed.

(** When the exact sum does not fit in 256 bits, a passing [endRound] stores
    the sum less [2^256]: a deadline already behind the current block. *)
Lemma endRound_deadline_wraps (e : Env) (s s' : State) (log : list Event) :
  endRound create_address e s = Ok (tt, s', log) ->
  0 <= block_number e < uint256_modulus ->
  0 <= duration s < uint256_modulus ->
  uint256_modulus <= block_number e + duration s ->
  roundEndBlockNumber s' = block_number e + duration s - uint256_modulus /\
  roundEndBlockNumber s' < block_number e.
Proof.
  rewrite endRound_eq.
  destruct ((block_number e >=? roundEndBlockNumber s) || newCoordinatorSet s
            || (coordinator s =? address0)); [|discriminate].
  intros H Hb Hd Hov. injection H as <- _. cbn.
  assert (Heq : uint256_add (block_number e) (duration s)
                = block_number e + duration s - uint256_modulus).
  { unfold uint256_add. symmetry.
    apply (Z.mod_unique _ _ 1); lia. }
  rewrite Heq. lia.
Qed.

(** *** Access control *)

(** X1. A caller who is neither the owner, the coordinator nor the witness
    can do nothing but [endRound]: every other transaction reverts in its
    modifier and leaves the state as it was. *)
Theorem stranger_can_only_endRound (e : Env) (op : Op) (s : State) :
  msg_sender e <> owner s ->
  msg_sender e <> coordinator s ->
  msg_sender e <> witness s ->
  op <> OpEndRound ->
  exists reason,
    call create_address e op s = (Failure reason, s) /\
    (reason = NotOwner \/ reason = NotCoordinator \/ reason = NotWitness).
Proof.
  intros Ho Hc Hw Hop.
  apply Z.eqb_neq in Ho, Hc, Hw.
  destruct op; try contradiction;
    unfold call, dispatch, returning, bind, ret;
    rewrite ?setMACI_eq, ?transferMatchingFunds_eq, ?setToken_eq,
      ?setCoordinator_eq, ?setWitness_eq, ?setRoundDuration_eq,
      ?coordinatorQuit_eq, ?witnessQuit_eq, ?renounceOwnership_eq,
      ?transferOwnership_eq, ?Ho, ?Hc, ?Hw;
    eexists; (split; [reflexivity|]); auto.
Qed.

(** *** Coordinator changes *)

(** X2. [setCoordinator] by the owner never fails on the end-round test,
    whatever the block number and the deadline: it has set
    [newCoordinatorSet] before it calls [endRound]. It stores the
    coordinator, leaves the flag set, starts a new round and restarts the
    deadline; the attestation flags, the witness, the token and the duration
    keep their values. *)
Theorem setCoordinator_starts_round (e : Env) (_coordinator : address) (s : State) :
  msg_sender e = owner s ->
  exists s',
    setCoordinator create_address e _coordinator s
      = Ok (tt, s', [CoordinatorTransferred _coordinator; NewRound (currentRound s')]) /\
    coordinator s' = _coordinator /\
    newCoordinatorSet s' = true /\
    previousRound s' = currentRound s /\
    currentRound s' = fr_address (next_instance create_address e s) /\
    created s' = created s ++ [next_instance create_address e s] /\
    roundEndBlockNumber s' = uint256_add (block_number e) (duration s) /\
    newMaci s' = newMaci s /\ previousRoundValid s' = previousRoundValid s /\
    owner s' = owner s /\ witness s' = witness s /\ token s' = token s /\
    duration s' = duration s.
Proof.
  intros Hown. rewrite setCoordinator_eq, Hown, Z.eqb_refl. cbv zeta.
  exists (round_started create_address e
            (set_newCoordinatorSet true (set_coordinator _coordinator s))).
  split; [reflexivity|]. cbn. repeat split.
Qed.

(** X3. [coordinatorQuit] by the coordinator never fails on the end-round
    test either: it zeroes [coordinator], starts a new round and leaves
    [newCoordinatorSet] as it was. While the role is vacant, [endRound]
    passes for every caller at every block, and [transferMatchingFunds] by
    the owner reverts with 'No coordinator'. *)
Theorem coordinatorQuit_vacates (e : Env) (s : State) :
  msg_sender e = coordinator s ->
  exists s',
    coordinatorQuit create_address e s
      = Ok (tt, s', [CoordinatorTransferred address0; NewRound (currentRound s')]) /\
    coordinator s' = address0 /\
    newCoordinatorSet s' = newCoordinatorSet s /\
    previousRound s' = currentRound s /\
    currentRound s' = fr_address (next_instance create_address e s) /\
    (forall e2, exists s2 log, endRound create_address e2 s' = Ok (tt, s2, log)) /\
    (forall e3, msg_sender e3 = owner s ->
       transferMatchingFunds e3 s' = Revert NoCoordinator).
Proof.
  intros Hco. rewrite coordinatorQuit_eq, Hco, Z.eqb_refl. cbv zeta.
  exists (round_started create_address e (set_coordinator address0 s)).
  do 5 (split; [reflexivity|]). split.
  - intros e2. rewrite endRound_eq. cbn.
    change (address0 =? address0) with true. rewrite orb_true_r.
    eexists; eexists; reflexivity.
  - intros e3 Hown. rewrite transferMatchingFunds_eq. cbn.
    now rewrite Hown, Z.eqb_refl.
Qed.

(** X4. Once set, [newCoordinatorSet] is cleared by nothing but a
    [transferMatchingFunds] of the owner in a state with a coordinator (its
    redo branch); and while it is set, [endRound] passes for every caller at
    every block. *)
Theorem newCoordinatorSet_sticky (e : Env) (op : Op) (s : State) :
  newCoordinatorSet s = true ->
  (newCoordinatorSet (snd (call create_address e op s)) = false ->
   op = OpTransferMatchingFunds /\ msg_sender e = owner s /\
   coordinator s <> address0) /\
  (forall e2, exists s2 log, endRound create_address e2 s = Ok (tt, s2, log)).
Proof.
  intros Hflag. split.
  - destruct op;
      unfold call, dispatch, returning, bind, ret;
      rewrite ?endRound_eq, ?setMACI_eq, ?transferMatchingFunds_eq, ?setToken_eq,
        ?setCoordinator_eq, ?setWitness_eq, ?setRoundDuration_eq,
        ?coordinatorQuit_eq, ?witnessQuit_eq, ?renounceOwnership_eq,
        ?transferOwnership_eq;
      try (repeat match goal with
                  | |- context [if ?c then _ else _] => destruct c
                  end; cbn; congruence).
    destruct (Z.eqb_spec (msg_sender e) (owner s)) as [Ho|Ho];
      [|cbn; congruence].
    destruct (Z.eqb_spec (coordinator s) address0) as [Hc|Hc];
      [cbn; congruence|].
    auto.
  - intros e2. rewrite endRound_eq, Hflag, orb_true_r. cbn.
    eexists; eexists; reflexivity.
Qed.

(** *** The finalization state machine, continued *)

(** No function sets [previousRoundValid]. *)
Lemma call_previousRoundValid (e : Env) (op : Op) (s : State) :
  previousRoundValid s = false ->
  previousRoundValid (snd (call create_address e op s)) = false.
Proof. intros H. destruct op; call_cases; auto. Qed.

(** X5. No function ever sets [previousRoundValid]: from deployment on it is
    clear in every state of every run, so [transferMatchingFunds] never
    takes the finalize branch there, for any caller. *)
Theorem finalize_unreachable (e : Env) (_firstCoordinator : address)
  (s0 : State) (log : list Event) (txs : list (Env * Op)) (s : State) :
  deploy create_address e _firstCoordinator = Ok (tt, s0, log) ->
  In s (run create_address txs s0) ->
  previousRoundValid s = false /\
  forall e' s' log', transferMatchingFunds e' s <> Ok (true, s', log').
Proof.
  rewrite deploy_eq. cbv zeta. intros Hd Hin.
  assert (H0 : previousRoundValid s0 = false) by (injection Hd as <- _; reflexivity).
  clear Hd.
  assert (Hv : previousRoundValid s = false).
  { revert s0 H0 Hin. induction txs as [|[e1 op] txs IH]; intros s0 H0 Hin.
    - destruct Hin as [<-|[]]. exact H0.
    - destruct Hin as [<-|Hin]; [exact H0|].
      apply (IH _ (call_previousRoundValid e1 op s0 H0) Hin). }
  split; [exact Hv|].
  intros e' s' log'. rewrite transferMatchingFunds_eq, Hv, andb_false_r.
  destruct (msg_sender e' =? owner s); [|discriminate].
  destruct (coordinator s =? address0); [discriminate|].
  destruct (newCoordinatorSet s); discriminate.
Qed.

(** X6. [transferMatchingFunds] never succeeds twice in a row: after a call
    that returned, by either branch, an immediate second call by the owner
    reverts with 'Invalid conditions for transfer of matching funds'. *)
Theorem transferMatchingFunds_not_twice (e1 e2 : Env) (s s1 : State)
  (b : bool) (log : list Event) :
  transferMatchingFunds e1 s = Ok (b, s1, log) ->
  msg_sender e2 = owner s1 ->
  transferMatchingFunds e2 s1 = Revert InvalidTransferConditions.
Proof.
  rewrite (transferMatchingFunds_eq e1 s).
  destruct (msg_sender e1 =? owner s); [|discriminate].
  destruct (coordinator s =? address0) eqn:Hc; [discriminate|].
  destruct (newCoordinatorSet s) eqn:Hflag.
  - intros H Hown. injection H as <- <- <-.
    rewrite transferMatchingFunds_eq. cbn in *.
    now rewrite Hown, Z.eqb_refl, Hc.
  - destruct (newMaci s && previousRoundValid s); [|discriminate].
    intros H Hown. injection H as <- <- <-.
    rewrite transferMatchingFunds_eq. cbn in *.
    now rewrite Hown, Z.eqb_refl, Hc, Hflag.
Qed.

(** *** Configuration *)

(** X7. [setToken] does not touch the rounds that exist: the next round
    started is the one bound to the new token, by the factory that starts it,
    and the instances created before keep theirs. *)
Theorem setToken_binds_next_round (e1 e2 : Env) (_token : address)
  (s s1 s2 : State) (log1 log2 : list Event) :
  setToken e1 _token s = Ok (tt, s1, log1) ->
  endRound create_address e2 s1 = Ok (tt, s2, log2) ->
  created s1 = created s /\ currentRound s1 = currentRound s /\
  previousRound s1 = previousRound s /\
  exists r,
    created s2 = created s ++ [r] /\
    fr_token r = _token /\ fr_factory r = this e2 /\
    currentRound s2 = fr_address r.
Proof.
  rewrite setToken_eq.
  destruct (msg_sender e1 =? owner s); [|discriminate].
  intros H1. injection H1 as <- _. rewrite endRound_eq.
  match goal with |- context [if ?c then _ else _] => destruct c end;
    [|discriminate].
  intros H2. injection H2 as <- _.
  do 3 (split; [reflexivity|]).
  eexists. repeat split; reflexivity.
Qed.

(** X8. [setRoundDuration] leaves the running deadline alone, so it does not
    change whether the round may end; the new duration is the one the next
    passing [endRound] adds to its block number. *)
Theorem setRoundDuration_next_deadline (e1 : Env) (_duration : uint256)
  (s s1 : State) (log1 : list Event) :
  setRoundDuration e1 _duration s = Ok (tt, s1, log1) ->
  roundEndBlockNumber s1 = roundEndBlockNumber s /\
  (forall e2 reason,
     endRound create_address e2 s1 = Revert reason
     <-> endRound create_address e2 s = Revert reason) /\
  (forall e2 s2 log2,
     endRound create_address e2 s1 = Ok (tt, s2, log2) ->
     roundEndBlockNumber s2 = uint256_add (block_number e2) _duration).
Proof.
  rewrite setRoundDuration_eq.
  destruct (msg_sender e1 =? owner s); [|discriminate].
  intros H1. injection H1 as <- _.
  split; [reflexivity|]. split.
  - intros e2 reason. rewrite !endRound_eq. cbn.
    destruct ((block_number e2 >=? roundEndBlockNumber s) || newCoordinatorSet s
              || (coordinator s =? address0)); split; intros H; discriminate || exact H.
  - intros e2 s2 log2. rewrite endRound_eq. cbn.
    destruct ((block_number e2 >=? roundEndBlockNumber s) || newCoordinatorSet s
              || (coordinator s =? address0)); [|discriminate].
    intros H. injection H as <- _. reflexivity.
Qed.

(** X9. The deadline is enforced: after an [endRound] that passed at block
    [b] with a coordinator in place and [newCoordinatorSet] clear, and with
    [b + duration] within 256 bits, a further [endRound] reverts exactly at
    the blocks below [b + duration] and passes from [b + duration] on; with
    a zero duration it passes again in the same block. *)
Theorem endRound_deadline_enforced (e1 : Env) (s s1 : State) (log : list Event) :
  endRound create_address e1 s = Ok (tt, s1, log) ->
  coordinator s <> address0 ->
  newCoordinatorSet s = false ->
  0 <= block_number e1 -> 0 <= duration s ->
  block_number e1 + duration s < uint256_modulus ->
  forall e2,
    (endRound create_address e2 s1 = Revert InvalidEndRoundConditions
     <-> block_number e2 < block_number e1 + duration s) /\
    (block_number e1 + duration s <= block_number e2 ->
     exists s2 log2, endRound create_address e2 s1 = Ok (tt, s2, log2)).
Proof.
  rewrite endRound_eq.
  match goal with |- context [if ?c then _ else _] => destruct c end;
    [|discriminate].
  intros H Hco Hflag Hb Hd Hfit e2. injection H as <- _.
  rewrite endRound_eq. cbn.
  rewrite (uint256_add_exact _ _ Hb Hd Hfit), Hflag,
    (eqb_address0_false _ Hco), !orb_false_r.
  destruct (block_number e2 >=? block_number e1 + duration s) eqn:Hge.
  - assert (Hle : block_number e1 + duration s <= block_number e2).
    { rewrite Z.geb_leb in Hge. now apply Z.leb_le. }
    split; [split; [discriminate | lia]|].
    intros _. eexists; eexists; reflexivity.
  - apply geb_false_lt in Hge.
    split; [split; [intros _; exact Hge | reflexivity]|]. lia.
Qed.

(** *** The witness role *)

(** X10. After [witnessQuit] the role is vacant: [setMACI] and [witnessQuit]
    revert with 'Sender is not the witness' for every caller but the zero
    address, until the owner names a witness with [setWitness], who can then
    attest. *)
Theorem witnessQuit_vacates (e : Env) (s s1 : State) (log : list Event) :
  witnessQuit e s = Ok (tt, s1, log) ->
  witness s1 = address0 /\
  (forall e2 _maci, msg_sender e2 <> address0 ->
     setMACI e2 _maci s1 = Revert NotWitness /\
     witnessQuit e2 s1 = Revert NotWitness) /\
  (forall e3 e4 _maci, msg_sender e3 = owner s ->
     exists s2 s3,
       setWitness e3 (msg_sender e4) s1
         = Ok (tt, s2, [WitnessTransferred (msg_sender e4)]) /\
       setMACI e4 _maci s2 = Ok (tt, s3, [MaciSet _maci]) /\
       newMaci s3 = true /\ maci s3 = _maci).
Proof.
  rewrite witnessQuit_eq.
  destruct (msg_sender e =? witness s); [|discriminate].
  intros H. injection H as <- _.
  split; [reflexivity|]. split.
  - intros e2 _maci Hnz. rewrite setMACI_eq, witnessQuit_eq. cbn.
    apply Z.eqb_neq in Hnz. now rewrite Hnz.
  - intros e3 e4 _maci Hown.
    rewrite setWitness_eq. cbn. rewrite Hown, Z.eqb_refl.
    eexists; eexists. split; [reflexivity|].
    rewrite setMACI_eq. cbn. rewrite Z.eqb_refl. repeat split.
Qed.

(** *** Invariants of runs *)

(** A property kept by every transaction of a kind holds all along a run of
    transactions of that kind. *)
Lemma run_invariant (P : State -> Prop) (Q : Env * Op -> Prop) :
  (forall e op s, Q (e, op) -> P s -> P (snd (call create_address e op s))) ->
  forall (txs : list (Env * Op)) (s0 s : State),
    P s0 -> Forall Q txs -> In s (run create_address txs s0) -> P s.
Proof.
  intros Hstep txs. induction txs as [|[e op] txs IH]; intros s0 s H0 HQ Hin.
  - destruct Hin as [<-|[]]. exact H0.
  - destruct Hin as [<-|Hin]; [exact H0|].
    inversion HQ as [|tx txs' Hq HQ']; subst.
    apply (IH (snd (call create_address e op s0))); auto.
Qed.

Lemma Forall_any (txs : list (Env * Op)) : Forall (fun _ => True) txs.
Proof. induction txs; constructor; auto. Qed.

Lemma call_latest_two (e : Env) (op : Op) (s : State) :
  latest_two s -> latest_two (snd (call create_address e op s)).
Proof.
  intros (l & r1 & r2 & Hcr & Hp & Hc).
  destruct (call_transition e op s) as [(Hcr' & Hc' & Hp')|(Hcr' & Hp' & Hc')].
  - exists l, r1, r2. rewrite Hcr', Hc', Hp'. auto.
  - exists (l ++ [r1]), r2, (next_instance create_address e s).
    rewrite Hcr', Hp', Hc', Hcr, Hc, <- !app_assoc. auto.
Qed.

Lemma call_addressed_by_count (e : Env) (op : Op) (s : State) :
  addressed_by_count create_address (this e) s ->
  addressed_by_count create_address (this e) (snd (call create_address e op s)).
Proof.
  intros Ha.
  destruct (call_transition e op s) as [(Hcr' & _ & _)|(Hcr' & _ & _)];
    unfold addressed_by_count; rewrite Hcr'; [exact Ha|].
  intros i r Hi.
  destruct (decide (i < length (created s))%nat) as [Hlt|Hge].
  - rewrite lookup_app_l in Hi by exact Hlt. now apply Ha.
  - rewrite lookup_app_r in Hi by lia.
    destruct (i - length (created s))%nat as [|k] eqn:Hk; [|destruct k; discriminate].
    injection Hi as <-. cbn.
    replace i with (length (created s)) by lia. auto.
Qed.

Lemma deploy_state (e : Env) (_firstCoordinator : address)
  (s0 : State) (log : list Event) :
  deploy create_address e _firstCoordinator = Ok (tt, s0, log) ->
  created s0 = [mkFundingRound (create_address (this e) 1) (this e) address0;
                mkFundingRound (create_address (this e) 2) (this e) address0] /\
  previousRound s0 = create_address (this e) 1 /\
  currentRound s0 = create_address (this e) 2 /\
  newCoordinatorSet s0 = true.
Proof.
  rewrite deploy_eq. cbv zeta. intros H. injection H as <- _.
  repeat split.
Qed.

Lemma ledger_latest_two_aux (e : Env) (_firstCoordinator : address)
  (s0 : State) (log : list Event) (txs : list (Env * Op)) (s : State) :
  deploy create_address e _firstCoordinator = Ok (tt, s0, log) ->
  In s (run create_address txs s0) ->
  latest_two s.
Proof.
  intros Hd Hin.
  apply (run_invariant latest_two (fun _ => True)) with (txs := txs) (s0 := s0);
    auto using Forall_any.
  - intros e1 op s1 _. apply call_latest_two.
  - destruct (deploy_state _ _ _ _ Hd) as (Hcr & Hp & Hc & _).
    exists [], (mkFundingRound (create_address (this e) 1) (this e) address0),
      (mkFundingRound (create_address (this e) 2) (this e) address0).
    rewrite Hcr, Hp, Hc. auto.
Qed.

(** X11. From deployment on, in every state of every run, at least two
    instances exist and the ledger shows the last two: [previousRound] is
    the one before the last created and [currentRound] the last. *)
Theorem ledger_shows_latest_two (e : Env) (_firstCoordinator : address)
  (s0 : State) (log : list Event) (txs : list (Env * Op)) (s : State) :
  deploy create_address e _firstCoordinator = Ok (tt, s0, log) ->
  In s (run create_address txs s0) ->
  exists l r1 r2,
    created s = l ++ [r1; r2] /\
    previousRound s = fr_address r1 /\ currentRound s = fr_address r2.
Proof.
  intros Hd Hin.
  exact (ledger_latest_two_aux _ _ _ _ txs s Hd Hin).
Qed.

Lemma call_keeps_newCoordinatorSet (e : Env) (op : Op) (s : State) :
  op <> OpTransferMatchingFunds ->
  newCoordinatorSet s = true ->
  newCoordinatorSet (snd (call create_address e op s)) = true.
Proof.
  intros Hop H. destruct op; try contradiction; call_cases; auto.
Qed.

(** X12. The constructor leaves [newCoordinatorSet] set, and it stays set
    until the first [transferMatchingFunds]: in every state of a run without
    that call, [endRound] passes for every caller at every block, whatever
    the deadline. *)
Theorem endRound_open_until_first_transfer (e : Env) (_firstCoordinator : address)
  (s0 : State) (log : list Event) (txs : list (Env * Op)) (s : State) :
  deploy create_address e _firstCoordinator = Ok (tt, s0, log) ->
  Forall (fun tx => snd tx <> OpTransferMatchingFunds) txs ->
  In s (run create_address txs s0) ->
  newCoordinatorSet s = true /\
  forall e2, exists s2 log2, endRound create_address e2 s = Ok (tt, s2, log2).
Proof.
  intros Hd Hno Hin.
  assert (Hflag : newCoordinatorSet s = true).
  { apply (run_invariant (fun s => newCoordinatorSet s = true)
             (fun tx => snd tx <> OpTransferMatchingFunds))
      with (txs := txs) (s0 := s0); auto.
    - intros e1 op s1 Hop. now apply call_keeps_newCoordinatorSet.
    - now destruct (deploy_state _ _ _ _ Hd) as (_ & _ & _ & Hf). }
  split; [exact Hflag|].
  intros e2. rewrite endRound_eq, Hflag, orb_true_r. cbn.
  eexists; eexists; reflexivity.
Qed.

(** X13. If the chain gives different addresses to different creation counts
    of the factory, then from deployment on, along every run of transactions
    sent to that factory, the round instances have pairwise different
    addresses and [currentRound] differs from [previousRound]. *)
Theorem round_handles_distinct (e : Env) (_firstCoordinator : address)
  (s0 : State) (log : list Event) (txs : list (Env * Op)) (s : State) :
  (forall n m, 0 < n -> 0 < m ->
     create_address (this e) n = create_address (this e) m -> n = m) ->
  deploy create_address e _firstCoordinator = Ok (tt, s0, log) ->
  Forall (fun tx => this (fst tx) = this e) txs ->
  In s (run create_address txs s0) ->
  NoDup (map fr_address (created s)) /\
  currentRound s <> previousRound s.
Proof.
  intros Hinj Hd Hthis Hin.
  assert (Ha : addressed_by_count create_address (this e) s).
  { apply (run_invariant (addressed_by_count create_address (this e))
             (fun tx => this (fst tx) = this e))
      with (txs := txs) (s0 := s0); auto.
    - intros e1 op s1 He1. cbn in He1. rewrite <- He1.
      apply call_addressed_by_count.
    - destruct (deploy_state _ _ _ _ Hd) as (Hcr & _).
      unfold addressed_by_count. rewrite Hcr.
      intros [|[|i]] r Hi; try discriminate; injection Hi as <-; auto. }
  assert (Hnd : NoDup (map fr_address (created s))).
  { apply NoDup_alt. intros i j x Hi Hj.
    change (map fr_address (created s)) with (fr_address <$> created s) in Hi, Hj.
    rewrite list_lookup_fmap in Hi, Hj.
    destruct (created s !! i) as [ri|] eqn:Hri; [|discriminate].
    destruct (created s !! j) as [rj|] eqn:Hrj; [|discriminate].
    cbn in Hi, Hj. injection Hi as Hi. injection Hj as Hj.
    destruct (Ha _ _ Hri) as [Hai _]. destruct (Ha _ _ Hrj) as [Haj _].
    assert (Z.of_nat i + 1 = Z.of_nat j + 1)
      by (apply Hinj; [lia | lia | congruence]).
    lia. }
  split; [exact Hnd|].
  destruct (ledger_latest_two_aux _ _ _ _ txs s Hd Hin) as (l & r1 & r2 & Hcr & Hp & Hc).
  rewrite Hcr, map_app in Hnd. apply NoDup_app in Hnd as (_ & _ & Hnd).
  cbn in Hnd. rewrite Hp, Hc. intros Heq.
  inversion Hnd as [|x l' Hnotin _]; subst. apply Hnotin. rewrite Heq. left.
Qed.

End Properties.

(** ** The contract on concrete data *)

Lemma transferMatchingFunds_redo_witness :
  msg_sender (owner_at 50) = owner (sample_state true true true) /\
  coordinator (sample_state true true true) <> address0 /\
  newCoordinatorSet (sample_state true true true) = true /\
  exists s',
    transferMatchingFunds (owner_at 50) (sample_state true true true)
      = Ok (false, s', [NewMaciRequired]) /\
    newCoordinatorSet s' = false /\ newMaci s' = false /\
    previousRoundValid s' = false.
Proof.
  assert (H1 : msg_sender (owner_at 50) = owner (sample_state true true true))
    by reflexivity.
  assert (H2 : coordinator (sample_state true true true) <> address0)
    by (vm_compute; discriminate).
  assert (H3 : newCoordinatorSet (sample_state true true true) = true)
    by reflexivity.
  repeat split; try assumption.
  destruct (transferMatchingFunds_redo sample_create_address _ _ H1 H2 H3)
    as (s' & Hrun & Hf1 & Hf2 & Hf3 & _).
  exists s'. auto.
Defined.

Lemma transferMatchingFunds_finalize_witness :
  msg_sender (owner_at 50) = owner (sample_state true true false) /\
  coordinator (sample_state true true false) <> address0 /\
  exists s',
    transferMatchingFunds (owner_at 50) (sample_state true true false)
      = Ok (true, s', [RoundFinalized 1002]) /\
    newMaci s' = false /\ previousRoundValid s' = true /\
    newCoordinatorSet s' = false.
Proof.
  assert (H1 : msg_sender (owner_at 50) = owner (sample_state true true false))
    by reflexivity.
  assert (H2 : coordinator (sample_state true true false) <> address0)
    by (vm_compute; discriminate).
  repeat split; try assumption.
  destruct (transferMatchingFunds_finalize sample_create_address _ _ H1 H2
              eq_refl eq_refl eq_refl)
    as (s' & Hrun & Hf1 & Hf2 & Hf3 & _).
  exists s'. auto.
Defined.

Lemma transferMatchingFunds_failures_witness :
  msg_sender (owner_at 50) = owner (sample_state true false false) /\
  transferMatchingFunds (owner_at 50) (sample_state true false false)
    = Revert InvalidTransferConditions /\
  snd (call sample_create_address (owner_at 50) OpTransferMatchingFunds
         (sample_state true false false))
    = sample_state true false false.
Proof.
  assert (H1 : msg_sender (owner_at 50) = owner (sample_state true false false))
    by reflexivity.
  destruct (transferMatchingFunds_failures sample_create_address
              (owner_at 50) (sample_state true false false))
    as [Hown Hframe].
  destruct (Hown H1) as (_ & Hinv & _).
  split; [exact H1|]. split.
  - apply Hinv. split; [vm_compute; discriminate|].
    split; [reflexivity|]. intros [_ Hv]. discriminate Hv.
  - apply (Hframe InvalidTransferConditions). reflexivity.
Defined.

Lemma endRound_conditions_witness :
  (block_number (stranger_at 50) < roundEndBlockNumber (sample_state false false false) /\
   newCoordinatorSet (sample_state false false false) = false /\
   coordinator (sample_state false false false) <> address0) /\
  endRound sample_create_address (stranger_at 50) (sample_state false false false)
    = Revert InvalidEndRoundConditions /\
  exists s',
    endRound sample_create_address (stranger_at 110) (sample_state false false false)
      = Ok (tt, s', [NewRound 1004]) /\
    previousRound s' = 1003 /\ currentRound s' = 1004 /\
    roundEndBlockNumber s' = 210.
Proof.
  assert (Hb : block_number (stranger_at 50)
                 < roundEndBlockNumber (sample_state false false false) /\
               newCoordinatorSet (sample_state false false false) = false /\
               coordinator (sample_state false false false) <> address0).
  { split; [reflexivity|]. split; [reflexivity|]. vm_compute; discriminate. }
  split; [exact Hb|]. split.
  - apply (endRound_conditions sample_create_address (stranger_at 50)
             (sample_state false false false)). exact Hb.
  - destruct (endRound_conditions sample_create_address (stranger_at 110)
                (sample_state false false false)) as (_ & _ & Hok).
    destruct Hok as (s' & Hrun & _ & Hp & Hc & _ & Hd & _).
    { intros (Hlt & _). vm_compute in Hlt. discriminate Hlt. }
    exists s'. split.
    + rewrite Hrun, Hc. reflexivity.
    + split; [exact Hp|]. split; [exact Hc|].
      apply Hd; vm_compute; congruence.
Defined.

Lemma round_transition_no_skip_witness :
  previousRound
    (snd (call sample_create_address (owner_at 50) (OpSetCoordinator 6)
            (sample_state false false false))) = 1003 /\
  currentRound
    (snd (call sample_create_address (owner_at 50) (OpSetCoordinator 6)
            (sample_state false false false))) = 1004.
Proof.
  destruct (proj2 (round_transition_no_skip sample_create_address)
              [(owner_at 50, OpSetCoordinator 6)]
              (sample_state false false false) 0%nat
              (sample_state false false false)
              (snd (call sample_create_address (owner_at 50) (OpSetCoordinator 6)
                      (sample_state false false false))))
    as (fr & Hcr & Hprev & Hcur).
  - reflexivity.
  - reflexivity.
  - vm_compute. discriminate.
  - split; [exact Hprev|].
    rewrite Hcur. vm_compute in Hcr. injection Hcr as <-. reflexivity.
Defined.

Lemma constructor_bootstraps_two_rounds_witness :
  (forall creator n, sample_create_address creator n <> address0) /\
  exists s log,
    deploy sample_create_address (owner_at 10) 5 = Ok (tt, s, log) /\
    previousRound s = 1002 /\ currentRound s = 1003.
Proof.
  assert (Hnz : forall creator n, sample_create_address creator n <> address0)
    by (intros creator n; unfold sample_create_address, address0; lia).
  split; [exact Hnz|].
  destruct (constructor_bootstraps_two_rounds sample_create_address
              (owner_at 10) 5 Hnz)
    as (s & log & Hrun & _ & Hp & Hc & _).
  exists s, log. split; [exact Hrun|]. split; [exact Hp | exact Hc].
Defined.

(** C6, as stated, fails: after the constructor [previousRound] is the first
    instance created, not [address(0)]. *)
Lemma constructor_previous_round_not_null :
  exists s log,
    deploy sample_create_address (owner_at 10) 5 = Ok (tt, s, log) /\
    currentRound s = 1003 /\
    previousRound s = 1002 /\
    previousRound s <> address0.
Proof.
  eexists; eexists. split; [vm_compute; reflexivity|].
  cbn. repeat split. discriminate.
Qed.

(** C7. After the witness has called [setMACI(77)] in the first round,
    [maci] is 77 and [newMaci] is set, but [getMaci(currentRound)] is still
    [address(0)]: the identifier is not recorded against the round. *)
Theorem setMACI_not_recorded :
  let s1 := snd (call sample_create_address (owner_at 11) (OpSetWitness 9)
                   deployed_state) in
  exists s2,
    call sample_create_address (witness_at 12) (OpSetMACI 77) s1
      = (Success RetUnit [MaciSet 77], s2) /\
    maci s2 = 77 /\ newMaci s2 = true /\
    getCurrentRound s2 = 1003 /\
    getMaci (getCurrentRound s2) s2 = address0 /\
    getMaci (getCurrentRound s2) s2 <> 77.
Proof.
  eexists. split; [vm_compute; reflexivity|].
  vm_compute. repeat split. discriminate.
Qed.

(** C8. With the duration set to [2^256 - 1], an [endRound] at block 12
    passes and stores the deadline 11: the sum has wrapped. *)
Theorem endRound_deadline_overflow :
  let s1 := snd (call sample_create_address (owner_at 11)
                   (OpSetRoundDuration (2 ^ 256 - 1)) deployed_state) in
  duration s1 = 2 ^ 256 - 1 /\
  uint256_modulus <= block_number (stranger_at 12) + duration s1 /\
  exists s2,
    call sample_create_address (stranger_at 12) OpEndRound s1
      = (Success RetUnit [NewRound 1004], s2) /\
    roundEndBlockNumber s2 = 11.
Proof.
  split; [vm_compute; reflexivity|].
  split; [vm_compute; discriminate|].
  eexists. split; vm_compute; reflexivity.
Qed.

Lemma witnessQuit_then_transfer_witness :
  msg_sender (witness_at 50) = witness (sample_state true true false) /\
  msg_sender (owner_at 50) = owner (sample_state true true false) /\
  previousRoundValid (sample_state true true false) = true /\
  exists s1,
    witnessQuit (witness_at 50) (sample_state true true false)
      = Ok (tt, s1, [WitnessTransferred address0]) /\
    transferMatchingFunds (owner_at 50) s1 = Revert InvalidTransferConditions.
Proof.
  assert (H1 : msg_sender (witness_at 50) = witness (sample_state true true false))
    by reflexivity.
  assert (H2 : msg_sender (owner_at 50) = owner (sample_state true true false))
    by reflexivity.
  repeat split; try assumption.
  destruct (witnessQuit_then_transfer (witness_at 50) (owner_at 50) _ H1 H2)
    as (s1 & Hrun & _ & _ & _ & Hrej).
  exists s1. split; [exact Hrun|].
  apply Hrej; [vm_compute; discriminate | reflexivity].
Defined.

(** C9, as stated, fails: with [newCoordinatorSet] set, [witnessQuit]
    followed by [transferMatchingFunds] takes the redo branch and returns
    [false]; it does not revert. *)
Lemma witnessQuit_then_transfer_redo :
  previousRoundValid (sample_state true true true) = true /\
  exists s1 s2,
    witnessQuit (witness_at 50) (sample_state true true true)
      = Ok (tt, s1, [WitnessTransferred address0]) /\
    transferMatchingFunds (owner_at 50) s1 = Ok (false, s2, [NewMaciRequired]) /\
    transferMatchingFunds (owner_at 50) s1 <> Revert InvalidTransferConditions.
Proof.
  split; [reflexivity|].
  eexists; eexists. split; [vm_compute; reflexivity|].
  split; [vm_compute; reflexivity|]. vm_compute. discriminate.
Qed.

Lemma setWitness_frame_witness :
  msg_sender (owner_at 50) = owner (sample_state true true false) /\
  exists s' s2,
    setWitness (owner_at 50) 8 (sample_state true true false)
      = Ok (tt, s', [WitnessTransferred 8]) /\
    witness s' = 8 /\ newMaci s' = true /\
    transferMatchingFunds (owner_at 51) s' = Ok (true, s2, [RoundFinalized 1002]).
Proof.
  assert (H1 : msg_sender (owner_at 50) = owner (sample_state true true false))
    by reflexivity.
  split; [exact H1|].
  destruct (setWitness_frame (owner_at 50) 8 _ H1)
    as (s' & Hrun & Hw & Hsame & Hfin & _).
  destruct (Hfin (owner_at 51)) as (s2 & Hrun2);
    try reflexivity; [vm_compute; discriminate|].
  exists s', s2. split; [exact Hrun|]. split; [exact Hw|].
  split; [|exact Hrun2].
  destruct Hsame as (_ & _ & _ & _ & _ & _ & Hm & _). exact Hm.
Defined.

(** ** The further properties on concrete data *)

Lemma deploy_sample :
  deploy sample_create_address (owner_at 10) 5
    = Ok (tt, deployed_state,
          [OwnershipTransferred 0 7; CoordinatorTransferred 5;
           NewRound 1002; NewRound 1003]).
Proof. vm_compute. reflexivity. Qed.

Lemma witness_named_in_run :
  In witness_named (run sample_create_address sample_txs deployed_state).
Proof. unfold witness_named, sample_txs. cbn [run]. right. left. reflexivity. Qed.

Lemma stranger_can_only_endRound_witness :
  msg_sender (stranger_at 50) <> owner (sample_state false false false) /\
  OpSetWitness 3 <> OpEndRound /\
  exists reason,
    call sample_create_address (stranger_at 50) (OpSetWitness 3)
      (sample_state false false false)
    = (Failure reason, sample_state false false false).
Proof.
  assert (H1 : msg_sender (stranger_at 50) <> owner (sample_state false false false))
    by (vm_compute; discriminate).
  assert (H2 : OpSetWitness 3 <> OpEndRound) by discriminate.
  split; [exact H1|]. split; [exact H2|].
  destruct (stranger_can_only_endRound sample_create_address (stranger_at 50)
              (OpSetWitness 3) (sample_state false false false))
    as (reason & Hcall & _); try (vm_compute; discriminate).
  exists reason. exact Hcall.
Defined.

Lemma setCoordinator_starts_round_witness :
  msg_sender (owner_at 50) = owner (sample_state false false false) /\
  block_number (owner_at 50) < roundEndBlockNumber (sample_state false false false) /\
  exists s',
    setCoordinator sample_create_address (owner_at 50) 6
      (sample_state false false false)
    = Ok (tt, s', [CoordinatorTransferred 6; NewRound (currentRound s')]) /\
    coordinator s' = 6 /\ newCoordinatorSet s' = true /\ previousRound s' = 1003.
Proof.
  assert (H1 : msg_sender (owner_at 50) = owner (sample_state false false false))
    by reflexivity.
  split; [exact H1|]. split; [reflexivity|].
  destruct (setCoordinator_starts_round sample_create_address (owner_at 50) 6 _ H1)
    as (s' & Hrun & Hc & Hf & Hp & _).
  exists s'. auto.
Defined.

Lemma coordinatorQuit_vacates_witness :
  msg_sender (mkEnv 1000 5 50) = coordinator (sample_state false false false) /\
  exists s',
    coordinatorQuit sample_create_address (mkEnv 1000 5 50)
      (sample_state false false false)
    = Ok (tt, s', [CoordinatorTransferred address0; NewRound (currentRound s')]) /\
    coordinator s' = address0 /\
    transferMatchingFunds (owner_at 51) s' = Revert NoCoordinator.
Proof.
  assert (H1 : msg_sender (mkEnv 1000 5 50)
               = coordinator (sample_state false false false)) by reflexivity.
  split; [exact H1|].
  destruct (coordinatorQuit_vacates sample_create_address (mkEnv 1000 5 50) _ H1)
    as (s' & Hrun & Hc & _ & _ & _ & _ & Hno).
  exists s'. split; [exact Hrun|]. split; [exact Hc|].
  apply Hno. reflexivity.
Defined.

Lemma newCoordinatorSet_sticky_witness :
  newCoordinatorSet (sample_state false false true) = true /\
  exists s2 log,
    endRound sample_create_address (stranger_at 50) (sample_state false false true)
      = Ok (tt, s2, log).
Proof.
  assert (H1 : newCoordinatorSet (sample_state false false true) = true)
    by reflexivity.
  split; [exact H1|].
  exact (proj2 (newCoordinatorSet_sticky sample_create_address (stranger_at 50)
                  OpEndRound _ H1) (stranger_at 50)).
Defined.

Lemma finalize_unreachable_witness :
  previousRoundValid witness_named = false /\
  forall e' s' log', transferMatchingFunds e' witness_named <> Ok (true, s', log').
Proof.
  exact (finalize_unreachable sample_create_address (owner_at 10) 5
           deployed_state _ sample_txs witness_named
           deploy_sample witness_named_in_run).
Defined.

Lemma transferMatchingFunds_not_twice_witness :
  transferMatchingFunds (owner_at 50) (sample_state true true false)
    = Ok (true, set_newMaci false (sample_state true true false),
          [RoundFinalized 1002]) /\
  transferMatchingFunds (owner_at 51)
    (set_newMaci false (sample_state true true false))
    = Revert InvalidTransferConditions.
Proof.
  assert (H1 : transferMatchingFunds (owner_at 50) (sample_state true true false)
               = Ok (true, set_newMaci false (sample_state true true false),
                     [RoundFinalized 1002])) by reflexivity.
  split; [exact H1|].
  apply (transferMatchingFunds_not_twice (owner_at 50) (owner_at 51) _ _ _ _ H1).
  reflexivity.
Defined.

Lemma setToken_binds_next_round_witness :
  exists r,
    created (round_started sample_create_address (stranger_at 120)
               (set_token 42 (sample_state false false false)))
      = created (sample_state false false false) ++ [r] /\
    fr_token r = 42.
Proof.
  destruct (setToken_binds_next_round sample_create_address
              (owner_at 50) (stranger_at 120) 42
              (sample_state false false false)
              (set_token 42 (sample_state false false false))
              (round_started sample_create_address (stranger_at 120)
                 (set_token 42 (sample_state false false false)))
              [NewToken] [NewRound 1004])
    as (_ & _ & _ & r & Hcr & Htok & _); try reflexivity.
  exists r. auto.
Defined.

Lemma setRoundDuration_next_deadline_witness :
  roundEndBlockNumber (set_duration 30 (sample_state false false false)) = 110 /\
  forall e2 s2 log2,
    endRound sample_create_address e2 (set_duration 30 (sample_state false false false))
      = Ok (tt, s2, log2) ->
    roundEndBlockNumber s2 = uint256_add (block_number e2) 30.
Proof.
  destruct (setRoundDuration_next_deadline sample_create_address (owner_at 50) 30
              (sample_state false false false)
              (set_duration 30 (sample_state false false false))
              [NewRoundDuration 30] eq_refl)
    as (Hsame & _ & Hnext).
  split; [exact Hsame | exact Hnext].
Defined.

Lemma endRound_deadline_enforced_witness :
  endRound sample_create_address (stranger_at 209)
    (round_started sample_create_address (stranger_at 110)
       (sample_state false false false))
    = Revert InvalidEndRoundConditions /\
  exists s2 log2,
    endRound sample_create_address (stranger_at 210)
      (round_started sample_create_address (stranger_at 110)
         (sample_state false false false))
    = Ok (tt, s2, log2).
Proof.
  assert (H : forall e2,
    (endRound sample_create_address e2
       (round_started sample_create_address (stranger_at 110)
          (sample_state false false false))
     = Revert InvalidEndRoundConditions
     <-> block_number e2 < block_number (stranger_at 110)
                           + duration (sample_state false false false)) /\
    (block_number (stranger_at 110) + duration (sample_state false false false)
       <= block_number e2 ->
     exists s2 log2,
       endRound sample_create_address e2
         (round_started sample_create_address (stranger_at 110)
            (sample_state false false false))
       = Ok (tt, s2, log2))).
  { apply (endRound_deadline_enforced sample_create_address (stranger_at 110)
             (sample_state false false false) _ [NewRound 1004]).
    - reflexivity.
    - vm_compute; discriminate.
    - reflexivity.
    - vm_compute; discriminate.
    - vm_compute; discriminate.
    - reflexivity. }
  split.
  - apply (H (stranger_at 209)). reflexivity.
  - apply (H (stranger_at 210)). vm_compute; discriminate.
Defined.

Lemma witnessQuit_vacates_witness :
  witness (set_newMaci false (set_witness address0 (sample_state true false false)))
    = address0 /\
  setMACI (witness_at 51) 77
    (set_newMaci false (set_witness address0 (sample_state true false false)))
    = Revert NotWitness.
Proof.
  destruct (witnessQuit_vacates (witness_at 50) (sample_state true false false)
              (set_newMaci false (set_witness address0 (sample_state true false false)))
              [WitnessTransferred address0] eq_refl)
    as (Hw & Hblocked & _).
  split; [exact Hw|].
  apply (Hblocked (witness_at 51) 77). vm_compute; discriminate.
Defined.

Lemma ledger_shows_latest_two_witness :
  exists l r1 r2,
    created witness_named = l ++ [r1; r2] /\
    previousRound witness_named = fr_address r1 /\
    currentRound witness_named = fr_address r2.
Proof.
  exact (ledger_shows_latest_two sample_create_address (owner_at 10) 5
           deployed_state _ sample_txs witness_named
           deploy_sample witness_named_in_run).
Defined.

Lemma endRound_open_until_first_transfer_witness :
  Forall (fun tx : Env * Op => snd tx <> OpTransferMatchingFunds) sample_txs /\
  newCoordinatorSet witness_named = true /\
  exists s2 log2,
    endRound sample_create_address (stranger_at 11) witness_named = Ok (tt, s2, log2).
Proof.
  assert (H1 : Forall (fun tx : Env * Op => snd tx <> OpTransferMatchingFunds)
                 sample_txs)
    by (repeat constructor; discriminate).
  split; [exact H1|].
  destruct (endRound_open_until_first_transfer sample_create_address
              (owner_at 10) 5 deployed_state _ sample_txs witness_named
              deploy_sample H1 witness_named_in_run) as (Hflag & Hopen).
  split; [exact Hflag | exact (Hopen (stranger_at 11))].
Defined.

Lemma round_handles_distinct_witness :
  (forall n m, 0 < n -> 0 < m ->
     sample_create_address (this (owner_at 10)) n
       = sample_create_address (this (owner_at 10)) m -> n = m) /\
  NoDup (map fr_address (created witness_named)) /\
  currentRound witness_named <> previousRound witness_named.
Proof.
  assert (Hinj : forall n m, 0 < n -> 0 < m ->
            sample_create_address (this (owner_at 10)) n
              = sample_create_address (this (owner_at 10)) m -> n = m)
    by (unfold sample_create_address; cbn; intros; lia).
  split; [exact Hinj|].
  apply (round_handles_distinct sample_create_address (owner_at 10) 5
           deployed_state _ sample_txs witness_named Hinj deploy_sample).
  - repeat constructor.
  - exact witness_named_in_run.
Defined.
